(** * safe-error: Either, TaskEither and their combinators

    A shallow embedding of [src/types.ts] and [src/helpers.ts].

    The library is a handful of combinators over a two-variant tagged value.
    Most of them take callbacks, and a JavaScript callback may change the
    state of the program and may throw.  Callbacks are therefore embedded as
    computations in a state-and-exception monad [JS]; the combinators that
    call them live in that monad too, the others are plain functions.  A
    callback is taken to end, by a return or by a throw: one that loops
    forever has no counterpart here. *)

From Stdlib Require Import List String ZArith Bool Lia DecimalString.
From ExtLib Require Import Structures.Monad Structures.MonadExc.
Import ListNotations.
Import MonadNotation.
Local Open Scope monad_scope.

(** ** types.ts *)

(** [type Either<L, R> = { _tag: "Left"; value: L } | { _tag: "Right"; value: R }] *)
Inductive Either (L R : Type) : Type :=
| Left (value : L)
| Right (value : R).

Arguments Left {L R} value.
Arguments Right {L R} value.

(** ** The host language: state, faults, promises *)

(** How the evaluation of an expression ends: with a value, or with a
    thrown fault.  [Fault] is the [unknown] of a [catch] clause. *)
Inductive Completion (Fault A : Type) : Type :=
| Normal (value : A)
| Throw (error : Fault).

Arguments Normal {Fault A} value.
Arguments Throw {Fault A} error.

(** A computation runs in a state of the program and ends in another one;
    what was done to the state before a throw stays done. *)
Definition JS (World Fault A : Type) : Type :=
  World -> World * Completion Fault A.

#[global] Instance Monad_JS {World Fault : Type} : Monad (JS World Fault) :=
  {| ret := fun A (a : A) => fun w => (w, Normal a);
     bind := fun A B (c : JS World Fault A) (k : A -> JS World Fault B) =>
       fun w => match c w with
                | (w', Normal a) => k a w'
                | (w', Throw e) => (w', Throw e)
                end |}.

(** [throw e] and [try { c } catch (error) { handler }]. *)
#[global] Instance Exc_JS {World Fault : Type} : MonadExc Fault (JS World Fault) :=
  {| raise := fun A (e : Fault) => fun w => (w, Throw e);
     catch := fun A (c : JS World Fault A) (handler : Fault -> JS World Fault A) =>
       fun w => match c w with
                | (w', Normal a) => (w', Normal a)
                | (w', Throw e) => handler e w'
                end |}.

(** A promise, seen from its consumer: the way it eventually settles, if it
    does.  When continuations are scheduled is not represented. *)
Inductive Promise (Fault A : Type) : Type :=
| Fulfilled (value : A)
| Rejected (reason : Fault)
| Pending.

Arguments Fulfilled {Fault A} value.
Arguments Rejected {Fault A} reason.
Arguments Pending {Fault A}.

(** How the body of an [async] function ends: it returns, it throws, or it
    stays suspended at an [await] whose promise never settles. *)
Inductive Outcome (Fault A : Type) : Type :=
| Returned (value : A)
| Thrown (error : Fault)
| Suspended.

Arguments Returned {Fault A} value.
Arguments Thrown {Fault A} error.
Arguments Suspended {Fault A}.

Definition Async (World Fault A : Type) : Type :=
  World -> World * Outcome Fault A.

#[global] Instance Monad_Async {World Fault : Type} : Monad (Async World Fault) :=
  {| ret := fun A (a : A) => fun w => (w, Returned a);
     bind := fun A B (c : Async World Fault A) (k : A -> Async World Fault B) =>
       fun w => match c w with
                | (w', Returned a) => k a w'
                | (w', Thrown e) => (w', Thrown e)
                | (w', Suspended) => (w', Suspended)
                end |}.

#[global] Instance Exc_Async {World Fault : Type} : MonadExc Fault (Async World Fault) :=
  {| raise := fun A (e : Fault) => fun w => (w, Thrown e);
     catch := fun A (c : Async World Fault A) (handler : Fault -> Async World Fault A) =>
       fun w => match c w with
                | (w', Thrown e) => handler e w'
                | r => r
                end |}.

Section Host.
Context {World Fault : Type}.

(** An ordinary expression inside an [async] body. *)
Definition sync {A} (c : JS World Fault A) : Async World Fault A :=
  fun w => match c w with
           | (w', Normal a) => (w', Returned a)
           | (w', Throw e) => (w', Thrown e)
           end.

(** [await p]: the value [p] is fulfilled with; a rejection is thrown at
    the [await]; a promise that never settles never resumes the body. *)
Definition await {A} (p : Promise Fault A) : Async World Fault A :=
  fun w => match p with
           | Fulfilled a => (w, Returned a)
           | Rejected e => (w, Thrown e)
           | Pending => (w, Suspended)
           end.

(** Calling [async () => body] never throws: it returns a promise that
    is fulfilled with what the body returns and rejected with what it
    throws. *)
Definition async {A} (body : Async World Fault A) : JS World Fault (Promise Fault A) :=
  fun w => match body w with
           | (w', Returned a) => (w', Normal (Fulfilled a))
           | (w', Thrown e) => (w', Normal (Rejected e))
           | (w', Suspended) => (w', Normal Pending)
           end.

(** [Array.prototype.reduce(callback, init)]. *)
Fixpoint reduce {T U} (callback : U -> T -> JS World Fault U)
         (array : list T) (init : U) : JS World Fault U :=
  match array with
  | [] => ret init
  | x :: rest => acc <- callback init x ;; reduce callback rest acc
  end.
End Host.

(** [A | null | undefined], for a type [A] that has neither sentinel. *)
Inductive Nullable (A : Type) : Type :=
| null
| undefined
| defined (a : A).

Arguments null {A}.
Arguments undefined {A}.
Arguments defined {A} a.

(** [type TaskEither<L, R> = Promise<Either<L, R>>] *)
Definition TaskEither (Fault L R : Type) : Type := Promise Fault (Either L R).

(** ** helpers.ts *)

Definition left {L R : Type} (value : L) : Either L R := Left value.

Definition right {R L : Type} (value : R) : Either L R := Right value.

Definition isLeft {L R} (e : Either L R) : bool :=
  match e with Left _ => true | Right _ => false end.

Definition isRight {L R} (e : Either L R) : bool :=
  match e with Right _ => true | Left _ => false end.

(** The combinators that follow test the tag with a type guard and then read
    [e.value] at the narrowed type: a pattern match on the variant.  A cast
    [e as Either<L, B>] of a Left is no run-time operation; here the Left is
    written again at the new type, around the payload it had. *)

Section Helpers.
Context {World Fault : Type}.

(** [isRight(e) ? right(f(e.value)) : (e as Either<L, B>)] *)
Definition map {L A B} (e : Either L A) (f : A -> JS World Fault B)
  : JS World Fault (Either L B) :=
  match e with
  | Right value => b <- f value ;; ret (right b)
  | Left value => ret (Left value)
  end.

(** [isLeft(e) ? left(f(e.value)) : (e as Either<M, R>)] *)
Definition mapLeft {L M R} (e : Either L R) (f : L -> JS World Fault M)
  : JS World Fault (Either M R) :=
  match e with
  | Left value => m <- f value ;; ret (left m)
  | Right value => ret (Right value)
  end.

(** [isRight(e) ? f(e.value) : (e as Either<L, B>)] *)
Definition chain {L A B} (e : Either L A) (f : A -> JS World Fault (Either L B))
  : JS World Fault (Either L B) :=
  match e with
  | Right value => f value
  | Left value => ret (Left value)
  end.

(** [fns.reduce((acc, fn) => chain(acc, fn), initial)]; every intermediate
    value has the type [any]. *)
Definition pipe {L any} (initial : Either L any)
           (fns : list (any -> JS World Fault (Either L any)))
  : JS World Fault (Either L any) :=
  reduce (fun acc fn => chain acc fn) fns initial.

(** [isRight(e) ? onRight(e.value) : onLeft(e.value)] *)
Definition fold {L A B} (e : Either L A)
           (onLeft : L -> JS World Fault B) (onRight : A -> JS World Fault B)
  : JS World Fault B :=
  match e with
  | Right value => onRight value
  | Left value => onLeft value
  end.

(** [try { return right(fn()); } catch (error) { return left(onError(error)); }] *)
Definition tryCatch {L R} (fn : unit -> JS World Fault R) (onError : Fault -> JS World Fault L)
  : JS World Fault (Either L R) :=
  catch (r <- fn tt ;; ret (right r))
        (fun error => l <- onError error ;; ret (left l)).

(** [async]: [try { return right(await fn()); } catch (error) { return left(onError(error)); }] *)
Definition tryCatchAsync {L R} (fn : unit -> JS World Fault (Promise Fault R))
           (onError : Fault -> JS World Fault L)
  : JS World Fault (TaskEither Fault L R) :=
  async (catch (p <- sync (fn tt) ;; r <- await p ;; ret (right r))
               (fun error => l <- sync (onError error) ;; ret (left l))).
End Helpers.

(** [value === null || value === undefined ? left(error) : right(value)] *)
Definition fromNullable {L A} (value : Nullable A) (error : L) : Either L A :=
  match value with
  | null | undefined => left error
  | defined a => right a
  end.

(** [isRight(e) ? e.value : defaultValue] *)
Definition getOrElse {L A} (e : Either L A) (defaultValue : A) : A :=
  match e with
  | Right value => value
  | Left _ => defaultValue
  end.

(** ** The specification's reading of [pipe]

    "Left-to-right fold of chain over the supplied function sequence,
    starting from initial", that is the nested call
    [chain(...chain(chain(initial, f1), f2)..., fn)]: the accumulator of the
    fold is the nest built so far, an expression that is evaluated before
    the call of [chain] it is the first argument of. *)
Definition chain_fold_spec {World Fault L any : Type} (initial : Either L any)
           (fns : list (any -> JS World Fault (Either L any)))
  : JS World Fault (Either L any) :=
  fold_left (fun nest fn => acc <- nest ;; chain acc fn) fns (ret initial).

(** ** Call logs

    To observe which callbacks a combinator calls, a callback is wrapped in
    a spy: the state gets a log in front, and every call of the spy writes
    the name of the callback at the end of the log before it runs it. *)

Definition spy {World Fault Name A B} (name : Name) (f : A -> JS World Fault B)
  : A -> JS (list Name * World) Fault B :=
  fun a '(log, w) => let '(w', c) := f a w in ((log ++ [name], w'), c).

Definition spy_all {World Fault Name A B} (fns : list (Name * (A -> JS World Fault B)))
  : list (A -> JS (list Name * World) Fault B) :=
  List.map (fun named => spy (fst named) (snd named)) fns.

(** A computation that is not spied on runs beside the log. *)
Definition quiet {World Fault Name A} (c : JS World Fault A)
  : JS (list Name * World) Fault A :=
  fun '(log, w) => let '(w', r) := c w in ((log, w'), r).

(** ** Concrete callbacks

    The state is a counter of the calls made so far and faults are strings. *)

Definition increment : Z -> JS nat string (Either string Z) :=
  fun a calls => (S calls, Normal (Right (a + 1)%Z)).

Definition reject_all : Z -> JS nat string (Either string Z) :=
  fun _ calls => (S calls, Normal (Left "rejected"%string)).

Definition double : Z -> JS nat string Z :=
  fun a calls => (S calls, Normal (2 * a)%Z).

Definition boom : unit -> JS nat string Z :=
  fun _ calls => (S calls, Throw "boom"%string).

Definition as_message : string -> JS nat string string :=
  fun error calls => (S calls, Normal error).

Definition rethrow : string -> JS nat string string :=
  fun error calls => (S calls, Throw error).

Definition failing_request : unit -> JS nat string (Promise string Z) :=
  fun _ calls => (S calls, Normal (Rejected "bad"%string)).

Definition broken_request : unit -> JS nat string (Promise string Z) :=
  fun _ calls => (S calls, Throw "no network"%string).

(** ** The examples: examples/1.0.syncronous.ts, 3.0.mixed.ts, 4.0.concurrent.ts

    The examples parse a text with [JSON.parse] and validate what comes
    out.  [JSON.parse] is a function of the host: it is a parameter here,
    and so is the type of numbers, which no modelled function looks into.
    The faults of the host operations used are Error objects. *)

Inductive HostError : Type :=
| SyntaxError (message : string)
| TypeError (message : string).

(** [(error as Error).message] *)
Definition message (error : HostError) : string :=
  match error with
  | SyntaxError m => m
  | TypeError m => m
  end.

(** The values [JSON.parse] returns, the [unknown] the validators get. *)
#[warnings="-register-all"]
Inductive JsonValue (number : Type) : Type :=
| JsonNull
| JsonBoolean (b : bool)
| JsonNumber (n : number)
| JsonString (s : string)
| JsonArray (items : list (JsonValue number))
| JsonObject (members : list (string * JsonValue number)).

Arguments JsonNull {number}.
Arguments JsonBoolean {number} b.
Arguments JsonNumber {number} n.
Arguments JsonString {number} s.
Arguments JsonArray {number} items.
Arguments JsonObject {number} members.

Section Examples.
Context {World number : Type}.

(** [typeof data]: [null] and arrays are objects too. *)
Definition typeof (data : JsonValue number) : string :=
  match data with
  | JsonNull => "object"
  | JsonBoolean _ => "boolean"
  | JsonNumber _ => "number"
  | JsonString _ => "string"
  | JsonArray _ => "object"
  | JsonObject _ => "object"
  end.

(** [data !== null] *)
Definition is_not_null (data : JsonValue number) : bool :=
  match data with
  | JsonNull => false
  | _ => true
  end.

(** The keys a parsed value has itself: the member names of an object; the
    indices and [length] of an array. *)
Definition own_keys (data : JsonValue number) : list string :=
  match data with
  | JsonObject members => List.map fst members
  | JsonArray items =>
      "length"%string ::
      List.map (fun i => NilZero.string_of_uint (Nat.to_uint i)) (seq 0 (List.length items))
  | _ => []
  end.

(** [key in data], for a key that the prototypes of objects and arrays do
    not define, as [name] and [age]: on a primitive or [null] it throws a
    TypeError. *)
Definition in_operator (key : string) (data : JsonValue number) : JS World HostError bool :=
  match data with
  | JsonObject _ | JsonArray _ => ret (existsb (String.eqb key) (own_keys data))
  | _ => raise (TypeError "Cannot use 'in' operator to search for a key in a primitive")
  end.

(** [a && b]: [b] is evaluated only when [a] is true. *)
Definition logical_and (a b : JS World HostError bool) : JS World HostError bool :=
  x <- a ;; if x then b else ret false.

Variable JSON_parse : string -> Completion HostError (JsonValue number).

(** [tryCatch(() => JSON.parse(jsonString),
              error => `Invalid JSON: ${(error as Error).message}`)] *)
Definition parseJSON (jsonString : string)
  : JS World HostError (Either string (JsonValue number)) :=
  tryCatch (fun _ => fun w => (w, JSON_parse jsonString))
           (fun error => ret ("Invalid JSON: " ++ message error)%string).

(** [typeof data === "object" && data !== null && "name" in data && "age" in data]
    decides between [right(data as User)] and [left("Invalid user data")]. *)
Definition validateUser (data : JsonValue number)
  : JS World HostError (Either string (JsonValue number)) :=
  valid <- logical_and
             (logical_and
                (logical_and (ret (String.eqb (typeof data) "object"))
                             (ret (is_not_null data)))
                (in_operator "name" data))
             (in_operator "age" data) ;;
  if valid then ret (right data) else ret (left "Invalid user data"%string).

(** [membership !== null && typeof membership === "string"] decides between
    [right(membership as string)] and [left("Invalid membership data")]. *)
Definition validateMembershipData (membership : JsonValue number)
  : JS World HostError (Either string (JsonValue number)) :=
  valid <- logical_and (ret (is_not_null membership))
                       (ret (String.eqb (typeof membership) "string")) ;;
  if valid then ret (right membership) else ret (left "Invalid membership data"%string).

(** [chain(parseJSON(jsonStr), validateUser)] *)
Definition userEither (jsonStr : string)
  : JS World HostError (Either string (JsonValue number)) :=
  parsed <- parseJSON jsonStr ;; chain parsed validateUser.

(** [fold(userEither, err => `Error: ${err}`, user => `User is valid`)] *)
Definition resultMessage (jsonStr : string) : JS World HostError string :=
  e <- userEither jsonStr ;;
  fold e (fun err => ret ("Error: " ++ err)%string) (fun _ => ret "User is valid"%string).
End Examples.

(** [safeDivide] of examples/1.0.syncronous.ts.  The numbers of the host
    and their operations are parameters: [zero] is [0], [strictly_equal] is
    [===] and [divide] is [/]. *)

Section Division.
Context {number : Type}.
Variable zero : number.
Variable strictly_equal : number -> number -> bool.
Variable divide : number -> number -> number.

(** [denominator === 0 ? left("Cannot divide by zero") : right(numerator / denominator)] *)
Definition safeDivide (numerator denominator : number) : Either string number :=
  if strictly_equal denominator zero
  then left "Cannot divide by zero"%string
  else right (divide numerator denominator).
End Division.

(** * Properties *)

(** ** Running computations *)

Section Laws.
Context {World Fault : Type}.

Lemma run_bind {A B} (c : JS World Fault A) (k : A -> JS World Fault B) (w : World) :
  (x <- c ;; k x) w =
  match c w with
  | (w', Normal a) => k a w'
  | (w', Throw e) => (w', Throw e)
  end.
Proof. reflexivity. Qed.

Lemma run_bind_ret {A} (c : JS World Fault A) (w : World) :
  (x <- c ;; ret x) w = c w.
Proof.
  rewrite run_bind. destruct (c w) as [w' [a | e]]; reflexivity.
Qed.

(** Reducing over a concatenation: reduce over the first part, go on from
    the accumulator it leaves. *)
Lemma reduce_app {T U} (callback : U -> T -> JS World Fault U) (xs ys : list T) :
  forall (init : U) (w : World),
    reduce callback (xs ++ ys) init w =
    (acc <- reduce callback xs init ;; reduce callback ys acc) w.
Proof.
  induction xs as [| x xs IH]; intros init w.
  - reflexivity.
  - simpl app. simpl reduce. rewrite !run_bind.
    destruct (callback init x w) as [w1 [acc | e]].
    + rewrite IH. reflexivity.
    + reflexivity.
Qed.
End Laws.

(** ** [pipe] against the specification's nest of [chain] calls *)

Section PipeSpec.
Context {World Fault L any : Type}.

Lemma pipe_nil (initial : Either L any) (w : World) :
  pipe (World := World) (Fault := Fault) initial [] w = (w, Normal initial).
Proof. reflexivity. Qed.

Lemma pipe_cons (initial : Either L any) fn fns (w : World) :
  pipe initial (fn :: fns) w =
  (acc <- chain initial fn ;; pipe (World := World) (Fault := Fault) acc fns) w.
Proof. reflexivity. Qed.

Lemma pipe_app (initial : Either L any) pre post (w : World) :
  pipe initial (pre ++ post) w =
  (acc <- pipe initial pre ;; pipe (World := World) (Fault := Fault) acc post) w.
Proof. unfold pipe. apply reduce_app. Qed.

Lemma pipe_snoc (initial : Either L any) fns fn (w : World) :
  pipe initial (fns ++ [fn]) w =
  (acc <- pipe initial fns ;; chain (World := World) (Fault := Fault) acc fn) w.
Proof.
  rewrite pipe_app, !run_bind.
  destruct (pipe initial fns w) as [w1 [acc | e]]; [| reflexivity].
  rewrite pipe_cons. apply run_bind_ret.
Qed.

(** A [Left] goes through every step of a [pipe] without running any. *)
Lemma pipe_left (l : L) fns (w : World) :
  pipe (World := World) (Fault := Fault) (any := any) (Left l) fns w = (w, Normal (Left l)).
Proof.
  induction fns as [| fn fns IH]; [reflexivity |].
  rewrite pipe_cons. simpl chain. exact IH.
Qed.

(** Folding from a nest built so far is running that nest and piping what
    it leaves through the functions. *)
Lemma fold_left_chain (fns : list (any -> JS World Fault (Either L any))) :
  forall (nest : JS World Fault (Either L any)) (w : World),
    fold_left (fun nest fn => acc <- nest ;; chain acc fn) fns nest w =
    (acc <- nest ;; pipe acc fns) w.
Proof.
  induction fns as [| fn fns IH]; intros nest w.
  - simpl fold_left. symmetry. apply run_bind_ret.
  - simpl fold_left. rewrite IH, !run_bind.
    destruct (nest w) as [w1 [acc | e]]; reflexivity.
Qed.

(** C3: for every initial Either and every sequence of functions, [pipe]
    is the left-to-right fold of [chain] over the sequence, that is the nest
    [chain(...chain(chain(initial, f1), f2)..., fn)]: same final state and
    same completion from every starting state; for three functions the nest
    is written out. *)
Theorem pipe_is_left_fold_of_chain :
  (forall (initial : Either L any) fns (w : World),
      pipe (Fault := Fault) initial fns w = chain_fold_spec initial fns w) /\
  (forall (initial : Either L any) f1 f2 f3 (w : World),
      pipe (Fault := Fault) initial [f1; f2; f3] w =
      (e1 <- chain initial f1 ;; e2 <- chain e1 f2 ;; chain e2 f3) w).
Proof.
  split.
  - intros initial fns w. unfold chain_fold_spec.
    rewrite fold_left_chain. reflexivity.
  - intros initial f1 f2 f3 w.
    rewrite pipe_cons, !run_bind.
    destruct (chain initial f1 w) as [w1 [e1 | x]]; [| reflexivity].
    rewrite pipe_cons, !run_bind.
    destruct (chain e1 f2 w1) as [w2 [e2 | x]]; [| reflexivity].
    rewrite pipe_cons, run_bind.
    destruct (chain e2 f3 w2) as [w3 [e3 | x]]; reflexivity.
Qed.

(** C10: [pipe] over no function at all returns the initial Either itself,
    and leaves the state as it was. *)
Theorem pipe_no_function_is_initial :
  forall (initial : Either L any) (w : World),
    pipe (Fault := Fault) initial [] w = (w, Normal initial).
Proof. intros initial w. apply pipe_nil. Qed.
End PipeSpec.

(** ** Short circuit *)

Section ShortCircuit.
Context {World Fault L : Type}.

Lemma chain_left {A B} (l : L) (f : A -> JS World Fault (Either L B)) (w : World) :
  chain (Left l) f w = (w, Normal (Left l)).
Proof. reflexivity. Qed.

Lemma chain_right {A B} (a : A) (f : A -> JS World Fault (Either L B)) (w : World) :
  chain (Right a) f w = f a w.
Proof. reflexivity. Qed.

(** Once the steps run so far have produced a [Left], the steps that follow
    change neither the state nor the result. *)
Lemma pipe_stops_at_left {any} (initial : Either L any) pre post (w w' : World) (l : L) :
  pipe (Fault := Fault) initial pre w = (w', Normal (Left l)) ->
  pipe initial (pre ++ post) w = (w', Normal (Left l)).
Proof.
  intros H. rewrite pipe_app, run_bind, H. apply pipe_left.
Qed.

Lemma pipe_step_left {any} (initial : Either L any)
      (pre : list (any -> JS World Fault (Either L any)))
      (fi : any -> JS World Fault (Either L any))
      (post : list (any -> JS World Fault (Either L any)))
      (w w1 w2 : World) (a : any) (l : L) :
  pipe (Fault := Fault) initial pre w = (w1, Normal (Right a)) ->
  fi a w1 = (w2, Normal (Left l)) ->
  pipe initial (pre ++ fi :: post) w = (w2, Normal (Left l)).
Proof.
  intros Hpre Hfi.
  change (pre ++ fi :: post) with (pre ++ [fi] ++ post). rewrite app_assoc.
  apply pipe_stops_at_left.
  rewrite pipe_snoc, run_bind, Hpre. exact Hfi.
Qed.
End ShortCircuit.

(** ** Spies *)

Lemma spy_all_app {World Fault Name A B} (xs ys : list (Name * (A -> JS World Fault B))) :
  spy_all (xs ++ ys) = spy_all xs ++ spy_all ys.
Proof. apply List.map_app. Qed.

Lemma spy_run {World Fault Name A B} (name : Name) (f : A -> JS World Fault B)
      (a : A) (log : list Name) (w w' : World) (c : Completion Fault B) :
  f a w = (w', c) -> spy name f a (log, w) = ((log ++ [name], w'), c).
Proof. intros H. unfold spy. rewrite H. reflexivity. Qed.

(** C2: [chain] on a Left calls nothing and returns that Left: for every
    [f] the state is left as it was, and the call log of a spy on [f] gets
    no entry.  In a [pipe], likewise: from a Left [initial] no function is
    called; and when the steps before [fi] leave Right(a) and [fi] answers
    [a] with a Left, the whole [pipe] ends in the state [fi] left, with that
    Left, and the call log ends with the entry of [fi], whatever functions
    come after it. *)
Theorem left_skips_the_later_steps :
  forall (World Fault L : Type),
    (forall A B (l : L) (f : A -> JS World Fault (Either L B)) (w : World),
        chain (Left l) f w = (w, Normal (Left l))) /\
    (forall Name A B (l : L) (name : Name) (f : A -> JS World Fault (Either L B))
            log (w : World),
        chain (Left l) (spy name f) (log, w) = ((log, w), Normal (Left l))) /\
    (forall any (l : L) (fns : list (any -> JS World Fault (Either L any))) (w : World),
        pipe (Left l) fns w = (w, Normal (Left l))) /\
    (forall Name any (l : L) (fns : list (Name * (any -> JS World Fault (Either L any))))
            log (w : World),
        pipe (Left l) (spy_all fns) (log, w) = ((log, w), Normal (Left l))) /\
    (forall any (initial : Either L any) pre (fi : any -> JS World Fault (Either L any)) post
            (w w1 w2 : World) (a : any) (l : L),
        pipe initial pre w = (w1, Normal (Right a)) ->
        fi a w1 = (w2, Normal (Left l)) ->
        pipe initial (pre ++ fi :: post) w = (w2, Normal (Left l))) /\
    (forall Name any (initial : Either L any) pre (name : Name)
            (fi : any -> JS World Fault (Either L any)) post
            log log1 (w w1 w2 : World) (a : any) (l : L),
        pipe (Fault := Fault) initial (spy_all pre) (log, w) = ((log1, w1), Normal (Right a)) ->
        fi a w1 = (w2, Normal (Left l)) ->
        pipe initial (spy_all (pre ++ (name, fi) :: post)) (log, w) =
        ((log1 ++ [name], w2), Normal (Left l))).
Proof.
  intros World Fault L.
  split; [| split; [| split; [| split; [| split]]]].
  - intros. apply chain_left.
  - intros. apply chain_left.
  - intros. apply pipe_left.
  - intros. apply pipe_left.
  - intros any initial pre fi post w w1 w2 a l Hpre Hfi.
    eapply pipe_step_left; [exact Hpre | exact Hfi].
  - intros Name any initial pre name fi post log log1 w w1 w2 a l Hpre Hfi.
    rewrite spy_all_app. simpl spy_all.
    eapply pipe_step_left; [exact Hpre |].
    simpl fst. simpl snd. apply spy_run. exact Hfi.
Qed.

(** ** [chain], [map], [fold] *)

(** C5: the identity laws of [chain].  [chain(right(a), f)] is [f(a)]: from
    every state, the same final state and the same completion, also when [f]
    throws or answers with a Left.  [chain(e, right)] is [e], for a Left as
    for a Right, and the state is left as it was. *)
Theorem chain_identity_laws :
  forall (World Fault L A : Type),
    (forall B (a : A) (f : A -> JS World Fault (Either L B)) (w : World),
        chain (right a) f w = f a w) /\
    (forall (e : Either L A) (w : World),
        chain (World := World) (Fault := Fault) e (fun a => ret (right a)) w = (w, Normal e)).
Proof.
  intros World Fault L A. split.
  - intros B a f w. apply chain_right.
  - intros [l | a] w; reflexivity.
Qed.

(** C6: [map] on Right(a) calls [f] on [a] and returns Right(f(a)), in the
    state [f] left; [map] on a Left returns that Left with the payload it
    had, calls nothing and leaves the state as it was.  Left(l) at the new
    success type is the same tagged value: the cast of the source is not a
    run-time operation. *)
Theorem map_right_applies_left_passes :
  forall (World Fault L A B : Type) (f : A -> JS World Fault B),
    (forall (a : A) (b : B) (w w' : World),
        f a w = (w', Normal b) ->
        map (L := L) (Right a) f w = (w', Normal (Right b))) /\
    (forall (l : L) (w : World),
        map (Left l) f w = (w, Normal (Left l))) /\
    (forall Name (name : Name) (l : L) log (w : World),
        map (Left l) (spy name f) (log, w) = ((log, w), Normal (Left l))).
Proof.
  intros World Fault L A B f. split; [| split].
  - intros a b w w' H. unfold map. rewrite run_bind, H. reflexivity.
  - intros l w. reflexivity.
  - intros Name name l log w. reflexivity.
Qed.

(** C7: [fold] runs the handler the tag names, on the payload, and nothing
    else: [fold(left(x), onLeft, onRight)] is [onLeft(x)] and
    [fold(right(a), onLeft, onRight)] is [onRight(a)], as computations; with
    a spy on each handler, the call log gets one entry, the name of that
    handler. *)
Theorem fold_runs_one_handler :
  forall (World Fault L A B : Type)
         (onLeft : L -> JS World Fault B) (onRight : A -> JS World Fault B),
    (forall (x : L) (w : World), fold (left x) onLeft onRight w = onLeft x w) /\
    (forall (a : A) (w : World), fold (right a) onLeft onRight w = onRight a w) /\
    (forall Name (nl nr : Name) (x : L) log (w : World),
        fst (fst (fold (left x) (spy nl onLeft) (spy nr onRight) (log, w))) = log ++ [nl]) /\
    (forall Name (nl nr : Name) (a : A) log (w : World),
        fst (fst (fold (right a) (spy nl onLeft) (spy nr onRight) (log, w))) = log ++ [nr]).
Proof.
  intros World Fault L A B onLeft onRight. split; [| split; [| split]].
  - intros x w. reflexivity.
  - intros a w. reflexivity.
  - intros Name nl nr x log w. simpl fold. unfold spy.
    destruct (onLeft x w) as [w' c]. reflexivity.
  - intros Name nl nr a log w. simpl fold. unfold spy.
    destruct (onRight a w) as [w' c]. reflexivity.
Qed.

(** ** The fault boundary: [tryCatch] *)

(** C4: when [fn] returns [r], [tryCatch] returns Right(r) and [onError] is
    not called; when [fn] throws, the fault is caught and handed to
    [onError], and the result is Left of what [onError] returns;
    [tryCatch(() => 42, onError)] is [right(42)]. *)
Theorem tryCatch_right_or_left_of_onError :
  forall (World Fault L R : Type)
         (fn : unit -> JS World Fault R) (onError : Fault -> JS World Fault L),
    (forall (r : R) (w w' : World),
        fn tt w = (w', Normal r) ->
        tryCatch fn onError w = (w', Normal (right r))) /\
    (forall (fault : Fault) (w w' : World),
        fn tt w = (w', Throw fault) ->
        tryCatch fn onError w = (l <- onError fault ;; ret (left l)) w') /\
    (forall (fault : Fault) (l : L) (w w' w'' : World),
        fn tt w = (w', Throw fault) ->
        onError fault w' = (w'', Normal l) ->
        tryCatch fn onError w = (w'', Normal (left l))) /\
    (forall (w : World),
        tryCatch (fun _ => ret 42%Z) onError w = (w, Normal (right 42%Z))).
Proof.
  intros World Fault L R fn onError. split; [| split; [| split]].
  - intros r w w' H. unfold tryCatch. simpl. rewrite H. reflexivity.
  - intros fault w w' H. unfold tryCatch. simpl. rewrite H. reflexivity.
  - intros fault l w w' w'' H H'. unfold tryCatch. simpl. rewrite H, H'. reflexivity.
  - intros w. reflexivity.
Qed.

(** ** The fault boundary: [tryCatchAsync] *)

Section AsyncBoundary.
Context {World Fault L R : Type}.
Variable fn : unit -> JS World Fault (Promise Fault R).
Variable onError : Fault -> JS World Fault L.

(** The three ways the call of [fn] and the wait for its promise can end
    without a fault. *)
Lemma tryCatchAsync_fulfilled (r : R) (w w1 : World) :
  fn tt w = (w1, Normal (Fulfilled r)) ->
  tryCatchAsync fn onError w = (w1, Normal (Fulfilled (Right r))).
Proof. intros H. unfold tryCatchAsync, async, sync, await. simpl. rewrite H. reflexivity. Qed.

Lemma tryCatchAsync_pending (w w1 : World) :
  fn tt w = (w1, Normal Pending) ->
  tryCatchAsync fn onError w = (w1, Normal Pending).
Proof. intros H. unfold tryCatchAsync, async, sync, await. simpl. rewrite H. reflexivity. Qed.

(** The two ways it can end with a fault: both reach the handler. *)
Lemma tryCatchAsync_rejected (fault : Fault) (w w1 : World) :
  fn tt w = (w1, Normal (Rejected fault)) ->
  tryCatchAsync fn onError w =
  async (l <- sync (onError fault) ;; ret (left l)) w1.
Proof. intros H. unfold tryCatchAsync, async, sync, await. simpl. rewrite H. reflexivity. Qed.

Lemma tryCatchAsync_thrown (fault : Fault) (w w1 : World) :
  fn tt w = (w1, Throw fault) ->
  tryCatchAsync fn onError w =
  async (l <- sync (onError fault) ;; ret (left l)) w1.
Proof. intros H. unfold tryCatchAsync, async, sync, await. simpl. rewrite H. reflexivity. Qed.

Lemma handler_returns (fault : Fault) (l : L) (w1 w2 : World) :
  onError fault w1 = (w2, Normal l) ->
  async (l <- sync (onError fault) ;; ret (left (R := R) l)) w1 =
  (w2, Normal (Fulfilled (Left l))).
Proof. intros H. unfold async, sync. simpl. rewrite H. reflexivity. Qed.

Lemma handler_throws (fault fault' : Fault) (w1 w2 : World) :
  onError fault w1 = (w2, Throw fault') ->
  async (l <- sync (onError fault) ;; ret (left (R := R) l)) w1 =
  (w2, Normal (Rejected fault')).
Proof. intros H. unfold async, sync. simpl. rewrite H. reflexivity. Qed.
(** X20: the promise [tryCatchAsync] returns is rejected only with a fault
    of the handler: when it is rejected with [reason], [fn] threw or its
    promise was rejected with some fault, and the handler threw [reason] on
    that fault. *)
Lemma tryCatchAsync_rejected_by_handler (reason : Fault) (w w' : World) :
  tryCatchAsync fn onError w = (w', Normal (Rejected reason)) ->
  exists fault w1,
    (fn tt w = (w1, Throw fault) \/ fn tt w = (w1, Normal (Rejected fault))) /\
    onError fault w1 = (w', Throw reason).
Proof.
  intros H.
  destruct (fn tt w) as [w1 [[r | fault |] | fault]] eqn:Hfn.
  - rewrite (tryCatchAsync_fulfilled _ _ _ Hfn) in H. discriminate H.
  - rewrite (tryCatchAsync_rejected _ _ _ Hfn) in H.
    destruct (onError fault w1) as [w2 [l | fault']] eqn:Hl.
    + rewrite (handler_returns _ _ _ _ Hl) in H. discriminate H.
    + rewrite (handler_throws _ _ _ _ Hl) in H. injection H as <- <-.
      exists fault, w1. split; [right; reflexivity | exact Hl].
  - rewrite (tryCatchAsync_pending _ _ Hfn) in H. discriminate H.
  - rewrite (tryCatchAsync_thrown _ _ _ Hfn) in H.
    destruct (onError fault w1) as [w2 [l | fault']] eqn:Hl.
    + rewrite (handler_returns _ _ _ _ Hl) in H. discriminate H.
    + rewrite (handler_throws _ _ _ _ Hl) in H. injection H as <- <-.
      exists fault, w1. split; [left; reflexivity | exact Hl].
Qed.
End AsyncBoundary.

(** C1, amended: for every [fn], and every handler [onError] that returns
    normally on every fault, the call [tryCatchAsync(fn, onError)] returns a
    promise that never settles by fault; it is fulfilled with Right(result)
    when the promise of [fn] is fulfilled with [result], and with
    Left(onError(fault)) when that promise is rejected with [fault]; it stays
    unsettled only when the promise of [fn] does. *)
Theorem tryCatchAsync_settles_with_an_Either :
  forall (World Fault L R : Type)
         (fn : unit -> JS World Fault (Promise Fault R))
         (onError : Fault -> JS World Fault L),
    (forall (fault : Fault) (w : World), exists w' l, onError fault w = (w', Normal l)) ->
    (forall (w : World), exists w' p,
        tryCatchAsync fn onError w = (w', Normal p) /\
        (forall reason, p <> Rejected reason) /\
        (p = Pending -> exists w1, fn tt w = (w1, Normal Pending))) /\
    (forall (r : R) (w w1 : World),
        fn tt w = (w1, Normal (Fulfilled r)) ->
        tryCatchAsync fn onError w = (w1, Normal (Fulfilled (right r)))) /\
    (forall (fault : Fault) (l : L) (w w1 w2 : World),
        fn tt w = (w1, Normal (Rejected fault)) ->
        onError fault w1 = (w2, Normal l) ->
        tryCatchAsync fn onError w = (w2, Normal (Fulfilled (left l)))).
Proof.
  intros World Fault L R fn onError Htotal. split; [| split].
  - intros w.
    destruct (fn tt w) as [w1 [[r | fault |] | fault]] eqn:Hfn.
    + exists w1, (Fulfilled (Right r)). split; [| split].
      * apply tryCatchAsync_fulfilled, Hfn.
      * discriminate.
      * discriminate.
    + destruct (Htotal fault w1) as (w2 & l & Hl).
      exists w2, (Fulfilled (Left l)). split; [| split].
      * rewrite (tryCatchAsync_rejected _ _ _ _ _ Hfn). apply handler_returns, Hl.
      * discriminate.
      * discriminate.
    + exists w1, Pending. split; [| split].
      * apply tryCatchAsync_pending, Hfn.
      * discriminate.
      * intros _. exists w1. reflexivity.
    + destruct (Htotal fault w1) as (w2 & l & Hl).
      exists w2, (Fulfilled (Left l)). split; [| split].
      * rewrite (tryCatchAsync_thrown _ _ _ _ _ Hfn). apply handler_returns, Hl.
      * discriminate.
      * discriminate.
  - intros r w w1 Hfn. apply tryCatchAsync_fulfilled, Hfn.
  - intros fault l w w1 w2 Hfn Hl.
    rewrite (tryCatchAsync_rejected _ _ _ _ _ Hfn). apply handler_returns, Hl.
Qed.

(** C8: a fault that [fn] throws during its call, before it has returned
    any promise, is caught as well: the handler runs on it exactly as it
    runs on the reason of a rejected promise, and the returned promise is
    fulfilled with Left(onError(fault)). *)
Theorem tryCatchAsync_catches_synchronous_faults :
  forall (World Fault L R : Type)
         (fn : unit -> JS World Fault (Promise Fault R))
         (onError : Fault -> JS World Fault L)
         (fault : Fault) (w w1 : World),
    fn tt w = (w1, Throw fault) ->
    tryCatchAsync fn onError w =
    tryCatchAsync (fun _ => ret (Rejected fault)) onError w1 /\
    (forall (l : L) (w2 : World),
        onError fault w1 = (w2, Normal l) ->
        tryCatchAsync fn onError w = (w2, Normal (Fulfilled (left l)))).
Proof.
  intros World Fault L R fn onError fault w w1 Hfn.
  rewrite (tryCatchAsync_thrown _ _ _ _ _ Hfn). split.
  - symmetry. apply tryCatchAsync_rejected. reflexivity.
  - intros l w2 Hl. apply handler_returns, Hl.
Qed.

(** ** [fromNullable] *)

(** C9: [fromNullable] returns Right(value) for every value that is neither
    [null] nor [undefined], the falsy [0], the empty string and [false]
    among them; it returns Left(error) for [null] and for [undefined], and
    for nothing else. *)
Theorem fromNullable_left_only_for_the_sentinels :
  forall (L A : Type) (error : L),
    (forall (value : Nullable A),
        value <> null -> value <> undefined ->
        exists a, value = defined a /\ fromNullable value error = right a) /\
    fromNullable (defined 0%Z) error = right 0%Z /\
    fromNullable (defined EmptyString) error = right EmptyString /\
    fromNullable (defined false) error = right false /\
    fromNullable (A := A) null error = left error /\
    fromNullable (A := A) undefined error = left error /\
    (forall (value : Nullable A),
        isLeft (fromNullable value error) = true <-> value = null \/ value = undefined).
Proof.
  intros L A error.
  split; [| split; [| split; [| split; [| split; [| split]]]]]; try reflexivity.
  - intros [| | a] Hnull Hundef; [contradiction | contradiction |].
    exists a. split; reflexivity.
  - intros value. split.
    + destruct value as [| | a]; simpl; intros H.
      * now left.
      * now right.
      * discriminate H.
    + intros [H | H]; subst value; reflexivity.
Qed.


Lemma left_skips_the_later_steps_witness :
  pipe (Right 1%Z) [increment] 0 = (1, Normal (Right 2%Z)) /\
  reject_all 2%Z 1 = (2, Normal (Left "rejected"%string)) /\
  pipe (Right 1%Z) ([increment] ++ reject_all :: [increment; increment]) 0 =
  (2, Normal (Left "rejected"%string)).
Proof.
  split; [reflexivity | split; [reflexivity |]].
  apply (proj1 (proj2 (proj2 (proj2 (proj2
           (left_skips_the_later_steps nat string string)))))
           Z (Right 1%Z) [increment] reject_all [increment; increment] 0 1 2 2%Z);
    reflexivity.
Defined.

Lemma map_right_applies_left_passes_witness :
  double 21%Z 0 = (1, Normal 42%Z) /\
  map (L := string) (Right 21%Z) double 0 = (1, Normal (Right 42%Z)).
Proof.
  split; [reflexivity |].
  apply (proj1 (map_right_applies_left_passes nat string string Z Z double) 21%Z 42%Z 0 1).
  reflexivity.
Defined.

Lemma tryCatch_right_or_left_of_onError_witness :
  boom tt 0 = (1, Throw "boom"%string) /\
  as_message "boom"%string 1 = (2, Normal "boom"%string) /\
  tryCatch boom as_message 0 = (2, Normal (left "boom"%string)).
Proof.
  split; [reflexivity | split; [reflexivity |]].
  apply (proj1 (proj2 (proj2
           (tryCatch_right_or_left_of_onError nat string string Z boom as_message)))
           "boom"%string "boom"%string 0 1 2);
    reflexivity.
Defined.

Lemma tryCatchAsync_settles_with_an_Either_witness :
  (forall (fault : string) (w : nat), exists w' l, as_message fault w = (w', Normal l)) /\
  failing_request tt 0 = (1, Normal (Rejected "bad"%string)) /\
  as_message "bad"%string 1 = (2, Normal "bad"%string) /\
  tryCatchAsync failing_request as_message 0 = (2, Normal (Fulfilled (left "bad"%string))).
Proof.
  assert (H : forall (fault : string) (w : nat), exists w' l, as_message fault w = (w', Normal l)).
  { intros fault w. exists (S w), fault. reflexivity. }
  split; [exact H | split; [reflexivity | split; [reflexivity |]]].
  apply (proj2 (proj2
           (tryCatchAsync_settles_with_an_Either nat string string Z failing_request as_message H))
           "bad"%string "bad"%string 0 1 2);
    reflexivity.
Defined.

Lemma tryCatchAsync_catches_synchronous_faults_witness :
  broken_request tt 0 = (1, Throw "no network"%string) /\
  as_message "no network"%string 1 = (2, Normal "no network"%string) /\
  tryCatchAsync broken_request as_message 0 = (2, Normal (Fulfilled (left "no network"%string))).
Proof.
  split; [reflexivity | split; [reflexivity |]].
  apply (proj2 (tryCatchAsync_catches_synchronous_faults nat string string Z
                  broken_request as_message "no network"%string 0 1 eq_refl)
           "no network"%string 2).
  reflexivity.
Defined.

Lemma fromNullable_left_only_for_the_sentinels_witness :
  defined 0%Z <> null /\ defined 0%Z <> undefined /\
  exists a, defined 0%Z = defined a /\ fromNullable (defined 0%Z) "missing"%string = right a.
Proof.
  assert (Hnull : defined 0%Z <> null) by discriminate.
  assert (Hundef : defined 0%Z <> undefined) by discriminate.
  split; [exact Hnull | split; [exact Hundef |]].
  exact (proj1 (fromNullable_left_only_for_the_sentinels string Z "missing"%string)
           (defined 0%Z) Hnull Hundef).
Defined.

(** C1 as stated fails: the promise of [failing_request] is rejected with
    ["bad"], the handler [rethrow] throws what it is given, and the promise
    [tryCatchAsync] returns is rejected with ["bad"]: it settles by fault,
    and with no Either. *)
Lemma tryCatchAsync_rejects_when_onError_throws :
  failing_request tt 0 = (1, Normal (Rejected "bad"%string)) /\
  rethrow "bad"%string 1 = (2, Throw "bad"%string) /\
  tryCatchAsync failing_request rethrow 0 = (2, Normal (Rejected "bad"%string)) /\
  ~ (exists w' (either : Either string Z),
        tryCatchAsync failing_request rethrow 0 = (w', Normal (Fulfilled either))).
Proof.
  split; [reflexivity | split; [reflexivity | split; [reflexivity |]]].
  intros (w' & either & H). discriminate H.
Qed.

(** * Further properties of helpers.ts *)

(** ** The type guards *)

(** X1: on every Either exactly one of [isLeft] and [isRight] holds; [left]
    builds a value [isLeft] accepts and [right] one [isRight] accepts, and
    the payload of either can be anything, a value of the other channel's
    type included. *)
Theorem guards_are_complementary :
  forall (L R : Type),
    (forall (e : Either L R), isLeft e = negb (isRight e)) /\
    (forall (l : L), isLeft (left (R := R) l) = true /\ isRight (left (R := R) l) = false) /\
    (forall (r : R), isRight (right (L := L) r) = true /\ isLeft (right (L := L) r) = false) /\
    (forall (e e' : Either L L), isLeft e = true -> isRight e' = true -> e <> e').
Proof.
  intros L R. split; [| split; [| split]].
  - intros [l | r]; reflexivity.
  - intros l. split; reflexivity.
  - intros r. split; reflexivity.
  - intros [l | r] [l' | r'] H H'; try discriminate H; try discriminate H'.
    discriminate.
Qed.

(** ** [map] and [mapLeft] *)

Section Functor.
Context {World Fault : Type}.

(** X2: the functor laws of [map].  Mapping the identity gives the Either
    back; mapping [f] and then [g] is mapping "[f] then [g]" once: the same
    calls in the same order, the same state, the same result or fault. *)
Theorem map_functor_laws :
  forall (L A B C : Type),
    (forall (e : Either L A) (w : World),
        map (Fault := Fault) e (fun a => ret a) w = (w, Normal e)) /\
    (forall (e : Either L A) (f : A -> JS World Fault B) (g : B -> JS World Fault C) (w : World),
        (e' <- map e f ;; map e' g) w = map e (fun a => b <- f a ;; g b) w).
Proof.
  intros L A B C. split.
  - intros [l | a] w; reflexivity.
  - intros [l | a] f g w; [reflexivity |].
    simpl map. rewrite !run_bind.
    destruct (f a w) as [w1 [b | x]]; [| reflexivity].
    simpl. destruct (g b w1) as [w2 [c | x]]; reflexivity.
Qed.

(** X3: [mapLeft] is the mirror image of [map].  On a Right it calls
    nothing and returns that Right; on Left(l) it calls [f] on [l] once and
    returns Left of the result; it obeys the functor laws on the error
    channel. *)
Theorem mapLeft_functor_laws :
  forall (L M N R : Type),
    (forall Name (name : Name) (f : L -> JS World Fault M) (r : R) log (w : World),
        mapLeft (Right r) (spy name f) (log, w) = ((log, w), Normal (Right r))) /\
    (forall Name (name : Name) (f : L -> JS World Fault M) (l : L) (m : M) log (w w' : World),
        f l w = (w', Normal m) ->
        mapLeft (R := R) (Left l) (spy name f) (log, w) =
        ((log ++ [name], w'), Normal (Left m))) /\
    (forall (e : Either L R) (w : World),
        mapLeft (Fault := Fault) e (fun l => ret l) w = (w, Normal e)) /\
    (forall (e : Either L R) (f : L -> JS World Fault M) (g : M -> JS World Fault N) (w : World),
        (e' <- mapLeft e f ;; mapLeft e' g) w = mapLeft e (fun l => m <- f l ;; g m) w).
Proof.
  intros L M N R. split; [| split; [| split]].
  - intros Name name f r log w. reflexivity.
  - intros Name name f l m log w w' H. unfold mapLeft.
    change ((m0 <- spy name f l ;; ret (left m0)) (log, w))
      with (match spy name f l (log, w) with
            | (s, Normal m0) => (s, Normal (left (R := R) m0))
            | (s, Throw x) => (s, Throw x)
            end).
    rewrite (spy_run name f l log w w' (Normal m) H). reflexivity.
  - intros [l | r] w; reflexivity.
  - intros [l | r] f g w; [| reflexivity].
    simpl mapLeft. rewrite !run_bind.
    destruct (f l w) as [w1 [m | x]]; [| reflexivity].
    simpl. destruct (g m w1) as [w2 [n | x]]; reflexivity.
Qed.

(** X4: [map] and [mapLeft] work on different channels and do not disturb
    each other: in either order one callback is called, the one of the
    channel the Either is in, and the result is the same. *)
Theorem map_and_mapLeft_commute :
  forall (L M A B : Type) (e : Either L A)
         (f : A -> JS World Fault B) (g : L -> JS World Fault M) (w : World),
    (e' <- map e f ;; mapLeft e' g) w = (e' <- mapLeft e g ;; map e' f) w.
Proof.
  intros L M A B [l | a] f g w.
  - simpl. destruct (g l w) as [w1 [m | x]]; reflexivity.
  - simpl. destruct (f a w) as [w1 [b | x]]; reflexivity.
Qed.

(** X5: a callback that returns leaves the variant as it was: [map] and
    [mapLeft] never turn a Left into a Right or a Right into a Left, and
    [chain] never turns a Left into a Right. *)
Theorem variant_is_preserved :
  forall (L M A B : Type) (e : Either L A),
    (forall (f : A -> JS World Fault B) (w w' : World) (e' : Either L B),
        map e f w = (w', Normal e') -> isRight e' = isRight e) /\
    (forall (g : L -> JS World Fault M) (w w' : World) (e' : Either M A),
        mapLeft e g w = (w', Normal e') -> isRight e' = isRight e) /\
    (forall (f : A -> JS World Fault (Either L B)) (w w' : World) (e' : Either L B),
        chain e f w = (w', Normal e') -> isRight e' = true -> isRight e = true).
Proof.
  intros L M A B [l | a]; split; [| split | | split].
  - intros f w w' e' H. injection H as _ <-. reflexivity.
  - intros g w w' e' H. simpl in H.
    destruct (g l w) as [w1 [m | x]]; [| discriminate H].
    injection H as _ <-. reflexivity.
  - intros f w w' e' H. injection H as _ <-. intros H. discriminate H.
  - intros f w w' e' H. simpl in H.
    destruct (f a w) as [w1 [b | x]]; [| discriminate H].
    injection H as _ <-. reflexivity.
  - intros g w w' e' H. injection H as _ <-. reflexivity.
  - intros f w w' e' _ _. reflexivity.
Qed.
End Functor.

(** ** [chain] and [fold] *)

Section Sequencing.
Context {World Fault : Type}.

(** X6: [chain] is associative: chaining [f] and then [g] is chaining the
    function that runs [f] and chains [g] onto its result.  [map] is the
    [chain] of a function that wraps its result with [right]. *)
Theorem chain_is_associative :
  forall (L A B C : Type) (e : Either L A),
    (forall (f : A -> JS World Fault (Either L B)) (g : B -> JS World Fault (Either L C))
            (w : World),
        (e' <- chain e f ;; chain e' g) w =
        chain e (fun a => e' <- f a ;; chain e' g) w) /\
    (forall (f : A -> JS World Fault B) (w : World),
        map e f w = chain e (fun a => b <- f a ;; ret (right b)) w).
Proof.
  intros L A B C [l | a]; split; intros; reflexivity.
Qed.

(** X7: [fold] with the two constructors as handlers gives the Either
    back, and a transformation before a [fold] can be moved into the
    handler of its channel: [fold(map(e, f), onLeft, onRight)] is [fold] of
    [e] with [onRight] after [f], and likewise for [mapLeft] and [chain]. *)
Theorem fold_rebuilds_and_fuses :
  forall (L M A B C : Type) (e : Either L A),
    (forall (w : World),
        fold (Fault := Fault) e (fun l => ret (left l)) (fun a => ret (right a)) w =
        (w, Normal e)) /\
    (forall (f : A -> JS World Fault B)
            (onLeft : L -> JS World Fault C) (onRight : B -> JS World Fault C) (w : World),
        (e' <- map e f ;; fold e' onLeft onRight) w =
        fold e onLeft (fun a => b <- f a ;; onRight b) w) /\
    (forall (g : L -> JS World Fault M)
            (onLeft : M -> JS World Fault C) (onRight : A -> JS World Fault C) (w : World),
        (e' <- mapLeft e g ;; fold e' onLeft onRight) w =
        fold e (fun l => m <- g l ;; onLeft m) onRight w) /\
    (forall (f : A -> JS World Fault (Either L B))
            (onLeft : L -> JS World Fault C) (onRight : B -> JS World Fault C) (w : World),
        (e' <- chain e f ;; fold e' onLeft onRight) w =
        fold e onLeft (fun a => e' <- f a ;; fold e' onLeft onRight) w).
Proof.
  intros L M A B C [l | a]; (split; [| split; [| split]]); intros; try reflexivity.
  - simpl. destruct (g l w) as [w1 [m | x]]; reflexivity.
  - simpl. destruct (f a w) as [w1 [b | x]]; reflexivity.
Qed.

(** X8: [getOrElse] is the [fold] that answers a Left with the default and
    a Right with its payload; the error payload plays no part in it. *)
Theorem getOrElse_is_a_fold :
  forall (L A : Type) (defaultValue : A),
    (forall (e : Either L A) (w : World),
        fold (Fault := Fault) e (fun _ => ret defaultValue) (fun a => ret a) w =
        (w, Normal (getOrElse e defaultValue))) /\
    (forall (a : A), getOrElse (right (L := L) a) defaultValue = a) /\
    (forall (l l' : L), getOrElse (left l) defaultValue = getOrElse (left l') defaultValue) /\
    (forall (l : L), getOrElse (left l) defaultValue = defaultValue).
Proof.
  intros L A defaultValue. split; [| split; [| split]].
  - intros [l | a] w; reflexivity.
  - reflexivity.
  - reflexivity.
  - reflexivity.
Qed.
End Sequencing.

(** X9: [getOrElse(fromNullable(value, error), defaultValue)] is [value]
    unless [value] is [null] or [undefined], and then it is the default;
    the error given to [fromNullable] does not matter, and a [map] over the
    Either in between is applied to [value] and not to the default. *)
Theorem getOrElse_fromNullable_is_the_default_for_nullish :
  forall (World Fault L A B : Type) (error error' : L) (defaultValue : A),
    (forall (a : A), getOrElse (fromNullable (defined a) error) defaultValue = a) /\
    getOrElse (fromNullable null error) defaultValue = defaultValue /\
    getOrElse (fromNullable undefined error) defaultValue = defaultValue /\
    (forall (value : Nullable A),
        getOrElse (fromNullable value error) defaultValue =
        getOrElse (fromNullable value error') defaultValue) /\
    (forall (value : Nullable A) (f : A -> JS World Fault B) (d : B) (w w' : World)
            (e : Either L B),
        map (fromNullable value error) f w = (w', Normal e) ->
        (exists a, value = defined a /\ f a w = (w', Normal (getOrElse e d))) \/
        ((value = null \/ value = undefined) /\ w' = w /\ getOrElse e d = d)).
Proof.
  intros World Fault L A B error error' defaultValue.
  split; [| split; [| split; [| split]]]; try reflexivity.
  - intros [| | a]; reflexivity.
  - intros [| | a] f d w w' e H.
    + right. injection H as <- <-. split; [left; reflexivity | split; reflexivity].
    + right. injection H as <- <-. split; [right; reflexivity | split; reflexivity].
    + left. exists a. split; [reflexivity |]. simpl in H.
      destruct (f a w) as [w1 [b | x]]; [| discriminate H].
      injection H as <- <-. reflexivity.
Qed.

(** ** [pipe] *)

Section Pipelines.
Context {World Fault L any : Type}.

(** X10: a [pipe] can be cut anywhere: piping through [fs] followed by
    [gs] is piping through [fs] and piping the result through [gs]; a
    [pipe] of one function is a [chain]. *)
Theorem pipe_of_a_concatenation :
  (forall (initial : Either L any) (fs gs : list (any -> JS World Fault (Either L any)))
          (w : World),
      pipe initial (fs ++ gs) w = (acc <- pipe initial fs ;; pipe acc gs) w) /\
  (forall (initial : Either L any) (f : any -> JS World Fault (Either L any)) (w : World),
      pipe initial [f] w = chain initial f w).
Proof.
  split.
  - intros initial fs gs w. apply pipe_app.
  - intros initial f w. rewrite pipe_cons. apply run_bind_ret.
Qed.

(** X11: [pipe] catches nothing.  When the steps before [fi] leave
    Right(a) and [fi] throws on [a], the whole [pipe] throws that fault, in
    the state [fi] left, and none of the functions after [fi] is called. *)
Theorem pipe_lets_a_fault_escape :
  forall (initial : Either L any) (pre : list (any -> JS World Fault (Either L any)))
         (fi : any -> JS World Fault (Either L any))
         (post : list (any -> JS World Fault (Either L any)))
         (w w1 w2 : World) (a : any) (fault : Fault),
    pipe initial pre w = (w1, Normal (Right a)) ->
    fi a w1 = (w2, Throw fault) ->
    pipe initial (pre ++ fi :: post) w = (w2, Throw fault).
Proof.
  intros initial pre fi post w w1 w2 a fault Hpre Hfi.
  rewrite pipe_app, run_bind, Hpre.
  rewrite pipe_cons, run_bind. simpl chain. rewrite Hfi. reflexivity.
Qed.

(** X12: the functions a [pipe] calls are a beginning of its list, each
    called once and in the order of the list; a [pipe] that ends with a
    Right has called every one of them. *)
Theorem pipe_calls_a_prefix_in_order :
  forall Name (fns : list (Name * (any -> JS World Fault (Either L any))))
         (initial : Either L any) (log log' : list Name) (w w' : World)
         (c : Completion Fault (Either L any)),
    pipe initial (spy_all fns) (log, w) = ((log', w'), c) ->
    (exists k, k <= List.length fns /\ log' = log ++ firstn k (List.map fst fns)) /\
    (forall b, c = Normal (Right b) -> log' = log ++ List.map fst fns).
Proof.
  intros Name fns. induction fns as [| [name f] fns IH];
    intros initial log log' w w' c H.
  - simpl spy_all in H. rewrite pipe_nil in H. injection H as <- <- <-. split.
    + exists 0. split; [apply le_n | symmetry; apply app_nil_r].
    + intros b _. symmetry. apply app_nil_r.
  - destruct initial as [l | a].
    + rewrite pipe_left in H. injection H as <- <- <-. split.
      * exists 0. split; [apply Nat.le_0_l | symmetry; apply app_nil_r].
      * intros b Hb. discriminate Hb.
    + simpl spy_all in H. rewrite pipe_cons, run_bind in H.
      simpl chain in H. unfold spy in H. simpl fst in H. simpl snd in H.
      destruct (f a w) as [w1 c1].
      destruct c1 as [acc | x].
      * destruct (IH acc (log ++ [name]) log' w1 w' c H) as [(k & Hk & Hlog) Hall].
        split.
        -- exists (S k). split; [simpl; apply le_n_S, Hk |].
           rewrite Hlog, <- app_assoc. reflexivity.
        -- intros b Hb. rewrite (Hall b Hb), <- app_assoc. reflexivity.
      * injection H as <- <- <-. split.
        -- exists 1. split; [simpl; apply le_n_S, Nat.le_0_l |].
           reflexivity.
        -- intros b Hb. discriminate Hb.
Qed.
End Pipelines.

(** ** The fault boundaries and their handler *)

Section Boundaries.
Context {World Fault L R : Type}.

(** X13: [tryCatch] lets no fault of [fn] through.  When it throws, the
    fault is one the handler threw while it converted a fault of [fn]; with
    a handler that always returns it always returns an Either.  The handler
    is called once when [fn] throws and not at all when [fn] returns. *)
Theorem tryCatch_throws_only_what_the_handler_throws :
  forall (fn : unit -> JS World Fault R) (onError : Fault -> JS World Fault L),
    (forall (w w' : World) (reason : Fault),
        tryCatch fn onError w = (w', Throw reason) ->
        exists fault w1,
          fn tt w = (w1, Throw fault) /\ onError fault w1 = (w', Throw reason)) /\
    ((forall (fault : Fault) (w : World), exists w' l, onError fault w = (w', Normal l)) ->
     forall (w : World), exists w' e, tryCatch fn onError w = (w', Normal e)) /\
    (forall Name (name : Name) (log : list Name) (w : World),
        fst (fst (tryCatch (fun u => quiet (fn u)) (spy name onError) (log, w))) =
        match fn tt w with
        | (_, Normal _) => log
        | (_, Throw _) => log ++ [name]
        end).
Proof.
  intros fn onError. split; [| split].
  - intros w w' reason H. unfold tryCatch in H. simpl in H.
    destruct (fn tt w) as [w1 [r | fault]]; [discriminate H |].
    exists fault, w1. split; [reflexivity |].
    destruct (onError fault w1) as [w2 [l | x]]; [discriminate H |].
    injection H as <- <-. reflexivity.
  - intros Htotal w. unfold tryCatch. simpl.
    destruct (fn tt w) as [w1 [r | fault]].
    + exists w1, (right r). reflexivity.
    + destruct (Htotal fault w1) as (w2 & l & Hl). rewrite Hl.
      exists w2, (left l). reflexivity.
  - intros Name name log w. unfold tryCatch, quiet, spy. simpl.
    destruct (fn tt w) as [w1 [r | fault]]; [reflexivity |].
    destruct (onError fault w1) as [w2 [l | x]]; reflexivity.
Qed.

(** X14: the call [tryCatchAsync(fn, onError)] itself never throws, whatever
    [fn] and the handler do: it returns a promise.  That promise stays
    unsettled exactly when [fn] returned a promise that never settles.  The
    handler is called once when [fn] throws or its promise is rejected, and
    not at all otherwise. *)
Theorem tryCatchAsync_always_returns_a_promise :
  forall (fn : unit -> JS World Fault (Promise Fault R))
         (onError : Fault -> JS World Fault L) (w : World),
    (exists w' p,
        tryCatchAsync fn onError w = (w', Normal p) /\
        (p = Pending <-> fn tt w = (w', Normal Pending))) /\
    (forall Name (name : Name) (log : list Name),
        fst (fst (tryCatchAsync (fun u => quiet (fn u)) (spy name onError) (log, w))) =
        match fn tt w with
        | (_, Normal (Fulfilled _)) | (_, Normal Pending) => log
        | (_, Normal (Rejected _)) | (_, Throw _) => log ++ [name]
        end).
Proof.
  intros fn onError w. split.
  - destruct (fn tt w) as [w1 [[r | fault |] | fault]] eqn:Hfn.
    + exists w1, (Fulfilled (Right r)). split.
      * apply tryCatchAsync_fulfilled, Hfn.
      * split; intros H; discriminate H.
    + rewrite (tryCatchAsync_rejected _ _ _ _ _ Hfn).
      destruct (onError fault w1) as [w2 [l | x]] eqn:Hl.
      * exists w2, (Fulfilled (Left l)). split; [apply handler_returns, Hl |].
        split; intros H; discriminate H.
      * exists w2, (Rejected x). split; [apply handler_throws, Hl |].
        split; intros H; discriminate H.
    + exists w1, Pending. split.
      * apply tryCatchAsync_pending, Hfn.
      * split; reflexivity.
    + rewrite (tryCatchAsync_thrown _ _ _ _ _ Hfn).
      destruct (onError fault w1) as [w2 [l | x]] eqn:Hl.
      * exists w2, (Fulfilled (Left l)). split; [apply handler_returns, Hl |].
        split; intros H; discriminate H.
      * exists w2, (Rejected x). split; [apply handler_throws, Hl |].
        split; intros H; discriminate H.
  - intros Name name log.
    unfold tryCatchAsync, async, sync, await, quiet, spy. simpl.
    destruct (fn tt w) as [w1 [[r | fault |] | fault]]; try reflexivity;
      destruct (onError fault w1) as [w2 [l | x]]; reflexivity.
Qed.

(** X15: rewording the error after [tryCatch] is the same as rewording it
    in the handler: [mapLeft(tryCatch(fn, onError), g)] is
    [tryCatch(fn, error => g(onError(error)))]. *)
Theorem mapLeft_after_tryCatch :
  forall (M : Type) (fn : unit -> JS World Fault R)
         (onError : Fault -> JS World Fault L) (g : L -> JS World Fault M) (w : World),
    (e <- tryCatch fn onError ;; mapLeft e g) w =
    tryCatch fn (fun error => l <- onError error ;; g l) w.
Proof.
  intros M fn onError g w. unfold tryCatch. simpl.
  destruct (fn tt w) as [w1 [r | fault]]; [reflexivity |].
  destruct (onError fault w1) as [w2 [l | x]]; [| reflexivity].
  simpl. destruct (g l w2) as [w3 [m | x]]; reflexivity.
Qed.
End Boundaries.

(** * Properties of the examples *)

Section ExampleProperties.
Context {World number : Type}.

Lemma index_is_not_a_word (word : string) (items : list (JsonValue number)) :
  (forall c rest, word = String c rest ->
                  existsb (Ascii.eqb c) (list_ascii_of_string "0123456789") = false) ->
  word <> EmptyString ->
  existsb (String.eqb word)
          (List.map (fun i => NilZero.string_of_uint (Nat.to_uint i))
                    (seq 0 (List.length items))) = false.
Proof.
  intros Hfirst Hne.
  generalize (seq 0 (List.length items)). intros indices.
  induction indices as [| i indices IH]; [reflexivity |].
  simpl. rewrite IH, orb_false_r.
  destruct word as [| c rest]; [contradiction Hne; reflexivity |].
  specialize (Hfirst c rest eq_refl). simpl in Hfirst.
  repeat (apply orb_false_elim in Hfirst; destruct Hfirst as [? Hfirst]).
  unfold NilZero.string_of_uint.
  destruct (Nat.to_uint i) as [| d | d | d | d | d | d | d | d | d | d]; simpl;
    match goal with
    | H : Ascii.eqb c ?x = false |- (if Ascii.eqb c ?x then _ else _) = false =>
        rewrite H; reflexivity
    end.
Qed.

Lemma has_key_iff (key : string) (members : list (string * JsonValue number)) :
  existsb (String.eqb key) (List.map fst members) = true <-> In key (List.map fst members).
Proof.
  rewrite existsb_exists. split.
  - intros (k & Hin & Heq). apply String.eqb_eq in Heq. subst k. exact Hin.
  - intros Hin. exists key. split; [exact Hin | apply String.eqb_refl].
Qed.

Lemma validateUser_object (members : list (string * JsonValue number)) (w : World) :
  validateUser (JsonObject members) w =
  (w, Normal (if existsb (String.eqb "name") (List.map fst members) &&
                 existsb (String.eqb "age") (List.map fst members)
              then right (JsonObject members)
              else left "Invalid user data"%string)).
Proof.
  unfold validateUser, logical_and, in_operator, own_keys.
  cbn [ret bind Monad_JS typeof is_not_null].
  rewrite String.eqb_refl.
  destruct (existsb (String.eqb "name") (List.map fst members));
    destruct (existsb (String.eqb "age") (List.map fst members)); reflexivity.
Qed.

Lemma validateUser_array (items : list (JsonValue number)) (w : World) :
  validateUser (JsonArray items) w = (w, Normal (left "Invalid user data"%string)).
Proof.
  unfold validateUser, logical_and, in_operator, own_keys.
  cbn [ret bind Monad_JS typeof is_not_null existsb].
  rewrite String.eqb_refl.
  change (String.eqb "name" "length") with false.
  rewrite (index_is_not_a_word "name" items); [reflexivity | | discriminate].
  intros c rest H. injection H as <- _. reflexivity.
Qed.

Lemma validateUser_cases (data : JsonValue number) (w : World) :
  validateUser data w = (w, Normal (right data)) \/
  validateUser data w = (w, Normal (left "Invalid user data"%string)).
Proof.
  destruct data as [| b | n | s | items | members]; try (right; reflexivity).
  - right. apply validateUser_array.
  - rewrite validateUser_object.
    destruct (existsb (String.eqb "name") (List.map fst members) &&
              existsb (String.eqb "age") (List.map fst members));
      [left | right]; reflexivity.
Qed.

Lemma validateUser_right_iff (data : JsonValue number) (w : World) :
  validateUser data w = (w, Normal (right data)) <->
  exists members : list (string * JsonValue number),
    data = JsonObject members /\
    In "name"%string (List.map fst members) /\ In "age"%string (List.map fst members).
Proof.
  split.
  - destruct data as [| b | n | s | items | members];
      try (intros H; discriminate H).
    + rewrite validateUser_array. intros H. discriminate H.
    + rewrite validateUser_object. intros H. exists members. split; [reflexivity |].
      destruct (existsb (String.eqb "name") (List.map fst members)) eqn:Hname;
        [| discriminate H].
      destruct (existsb (String.eqb "age") (List.map fst members)) eqn:Hage;
        [| discriminate H].
      split; apply has_key_iff; assumption.
  - intros (members & -> & Hname & Hage). rewrite validateUser_object.
    apply has_key_iff in Hname. apply has_key_iff in Hage.
    rewrite Hname, Hage. reflexivity.
Qed.


(** X17: [validateMembershipData] never throws; it returns Right of its
    argument exactly when the argument is a string, and
    Left("Invalid membership data") for everything else. *)
Theorem validateMembershipData_accepts_strings :
  forall (membership : JsonValue number) (w : World),
    (validateMembershipData membership w = (w, Normal (right membership)) <->
     exists s, membership = JsonString s) /\
    ((forall s, membership <> JsonString s) ->
     validateMembershipData membership w =
     (w, Normal (left "Invalid membership data"%string))).
Proof.
  intros membership w. split; [split |].
  - destruct membership as [| b | n | s | items | members];
      intros H; try discriminate H.
    exists s. reflexivity.
  - intros (s & ->). reflexivity.
  - intros H. destruct membership as [| b | n | s | items | members];
      try reflexivity.
    contradiction (H s). reflexivity.
Qed.

(** X18: parsing and validating never throws.  When [JSON.parse] throws,
    the result is Left("Invalid JSON: " and the message of the fault); when
    it returns, the result is what [validateUser] says of the parsed value.
    The final message is "User is valid" exactly when the text parses to an
    object that has a [name] and an [age]. *)
Theorem parse_then_validate_never_throws :
  forall (JSON_parse : string -> Completion HostError (JsonValue number))
         (jsonStr : string) (w : World),
    (forall error,
        JSON_parse jsonStr = Throw error ->
        userEither JSON_parse jsonStr w =
        (w, Normal (left ("Invalid JSON: " ++ message error)%string)) /\
        resultMessage JSON_parse jsonStr w =
        (w, Normal ("Error: Invalid JSON: " ++ message error)%string)) /\
    (forall data,
        JSON_parse jsonStr = Normal data ->
        userEither JSON_parse jsonStr w = validateUser data w) /\
    (exists e, userEither JSON_parse jsonStr w = (w, Normal e)) /\
    (exists text,
        resultMessage JSON_parse jsonStr w = (w, Normal text) /\
        (text = "User is valid"%string <->
         exists members : list (string * JsonValue number),
           JSON_parse jsonStr = Normal (JsonObject members) /\
           In "name"%string (List.map fst members) /\
           In "age"%string (List.map fst members))).
Proof.
  intros JSON_parse jsonStr w.
  assert (Hthrow : forall error,
             JSON_parse jsonStr = Throw error ->
             userEither JSON_parse jsonStr w =
             (w, Normal (left ("Invalid JSON: " ++ message error)%string))).
  { intros error H. unfold userEither, parseJSON, tryCatch. simpl. rewrite H. reflexivity. }
  assert (Hreturn : forall data,
             JSON_parse jsonStr = Normal data ->
             userEither JSON_parse jsonStr w = validateUser data w).
  { intros data H. unfold userEither, parseJSON, tryCatch. simpl. rewrite H. reflexivity. }
  split; [| split; [| split]].
  - intros error H. split; [apply Hthrow, H |].
    unfold resultMessage. rewrite run_bind, (Hthrow error H). reflexivity.
  - exact Hreturn.
  - destruct (JSON_parse jsonStr) as [data | error] eqn:Hparse.
    + rewrite (Hreturn data eq_refl).
      destruct (validateUser_cases data w) as [H | H];
        rewrite H; eexists; reflexivity.
    + rewrite (Hthrow error eq_refl). eexists; reflexivity.
  - unfold resultMessage. rewrite run_bind.
    destruct (JSON_parse jsonStr) as [data | error] eqn:Hparse.
    + rewrite (Hreturn data eq_refl).
      pose proof (validateUser_right_iff data w) as Hiff.
      destruct (validateUser_cases data w) as [H | H]; rewrite H; simpl.
      * exists "User is valid"%string. split; [reflexivity |]. split.
        -- intros _. destruct (proj1 Hiff H) as (members & -> & Hname & Hage).
           exists members. split; [reflexivity | split; assumption].
        -- reflexivity.
      * eexists. split; [reflexivity |]. split; [intros Habs; discriminate Habs |].
        intros (members & Heq & Hname & Hage). injection Heq as ->.
        assert (Hr : validateUser (World := World) (JsonObject members) w =
                     (w, Normal (right (JsonObject members)))).
        { apply validateUser_right_iff.
          exists members. split; [reflexivity | split; assumption]. }
        rewrite Hr in H. discriminate H.
    + rewrite (Hthrow error eq_refl). simpl.
      eexists. split; [reflexivity |]. split; [intros Habs; discriminate Habs |].
      intros (members & Heq & _). discriminate Heq.
Qed.
End ExampleProperties.

(** X19: [safeDivide] answers Left("Cannot divide by zero") exactly when
    the denominator is [=== 0], and two divisions chained fail as soon as
    one of the two denominators is: the second division is attempted only
    on the quotient of the first. *)
Theorem safeDivide_chained_fails_on_either_zero :
  forall (World Fault number : Type) (zero : number)
         (strictly_equal : number -> number -> bool)
         (divide : number -> number -> number)
         (a b c : number) (w : World),
    (isLeft (safeDivide zero strictly_equal divide a b) = strictly_equal b zero) /\
    chain (Fault := Fault) (safeDivide zero strictly_equal divide a b)
          (fun result => ret (safeDivide zero strictly_equal divide result c)) w =
    (w, Normal (if strictly_equal b zero || strictly_equal c zero
                then left "Cannot divide by zero"%string
                else right (divide (divide a b) c))).
Proof.
  intros World Fault number zero strictly_equal divide a b c w.
  unfold safeDivide.
  destruct (strictly_equal b zero); [split; reflexivity |].
  split; [reflexivity |]. simpl.
  destruct (strictly_equal c zero); reflexivity.
Qed.

(** * Concrete runs of the further properties *)

Lemma guards_are_complementary_witness :
  isLeft (Left (R := Z) 1%Z) = true /\ isRight (Right (L := Z) 1%Z) = true /\
  Left 1%Z <> Right 1%Z.
Proof.
  split; [reflexivity | split; [reflexivity |]].
  exact (proj2 (proj2 (proj2 (guards_are_complementary Z Z)))
           (Left 1%Z) (Right 1%Z) eq_refl eq_refl).
Defined.

Lemma mapLeft_functor_laws_witness :
  as_message "bad"%string 0 = (1, Normal "bad"%string) /\
  mapLeft (R := Z) (Left "bad"%string) (spy "onLeft"%string as_message) ([], 0) =
  ((["onLeft"%string], 1), Normal (Left "bad"%string)).
Proof.
  split; [reflexivity |].
  exact (proj1 (proj2 (mapLeft_functor_laws (World := nat) (Fault := string)
                         string string string Z))
           string "onLeft"%string as_message "bad"%string "bad"%string [] 0 1 eq_refl).
Defined.

Lemma variant_is_preserved_witness :
  map (L := string) (Right 21%Z) double 0 = (1, Normal (Right 42%Z)) /\
  isRight (Right (L := string) 42%Z) = isRight (Right (L := string) 21%Z).
Proof.
  split; [reflexivity |].
  exact (proj1 (variant_is_preserved (World := nat) (Fault := string)
                  string string Z Z (Right 21%Z))
           double 0 1 (Right 42%Z) eq_refl).
Defined.

Lemma getOrElse_fromNullable_is_the_default_for_nullish_witness :
  map (fromNullable (defined 21%Z) "missing"%string) double 0 = (1, Normal (Right 42%Z)) /\
  ((exists a, defined 21%Z = defined a /\
              double a 0 = (1, Normal (getOrElse (Right (L := string) 42%Z) 0%Z))) \/
   ((defined 21%Z = null \/ defined 21%Z = undefined) /\ 1 = 0 /\
    getOrElse (Right (L := string) 42%Z) 0%Z = 0%Z)).
Proof.
  split; [reflexivity |].
  exact (proj2 (proj2 (proj2 (proj2
           (getOrElse_fromNullable_is_the_default_for_nullish
              nat string string Z Z "missing"%string "missing"%string 0%Z))))
           (defined 21%Z) double 0%Z 0 1 (Right 42%Z) eq_refl).
Defined.

Lemma pipe_lets_a_fault_escape_witness :
  pipe (Right 1%Z) [increment] 0 = (1, Normal (Right 2%Z)) /\
  (fun (_ : Z) (calls : nat) => (S calls, Throw "boom"%string)) 2%Z 1 =
  (2, Throw (A := Either string Z) "boom"%string) /\
  pipe (Right 1%Z)
       ([increment] ++ (fun _ calls => (S calls, Throw "boom"%string)) :: [increment]) 0 =
  (2, Throw "boom"%string).
Proof.
  split; [reflexivity | split; [reflexivity |]].
  exact (pipe_lets_a_fault_escape (Right 1%Z) [increment]
           (fun _ calls => (S calls, Throw "boom"%string)) [increment]
           0 1 2 2%Z "boom"%string eq_refl eq_refl).
Defined.

Lemma pipe_calls_a_prefix_in_order_witness :
  pipe (Right 1%Z)
       (spy_all [("first"%string, increment); ("second"%string, reject_all);
                 ("third"%string, increment)]) ([], 0) =
  ((["first"%string; "second"%string], 2), Normal (Left "rejected"%string)) /\
  exists k, k <= 3 /\
            ["first"%string; "second"%string] =
            [] ++ firstn k ["first"%string; "second"%string; "third"%string].
Proof.
  split; [reflexivity |].
  exact (proj1 (pipe_calls_a_prefix_in_order string
                  [("first"%string, increment); ("second"%string, reject_all);
                   ("third"%string, increment)]
                  (Right 1%Z) [] ["first"%string; "second"%string] 0 2
                  (Normal (Left "rejected"%string)) eq_refl)).
Defined.

Lemma tryCatch_throws_only_what_the_handler_throws_witness :
  tryCatch boom rethrow 0 = (2, Throw "boom"%string) /\
  exists fault w1, boom tt 0 = (w1, Throw fault) /\ rethrow fault w1 = (2, Throw "boom"%string).
Proof.
  split; [reflexivity |].
  exact (proj1 (tryCatch_throws_only_what_the_handler_throws boom rethrow)
           0 2 "boom"%string eq_refl).
Defined.

Lemma tryCatchAsync_always_returns_a_promise_witness :
  exists w' p,
    tryCatchAsync failing_request rethrow 0 = (w', Normal p) /\
    (p = Pending <-> failing_request tt 0 = (w', Normal Pending)).
Proof.
  exact (proj1 (tryCatchAsync_always_returns_a_promise failing_request rethrow 0)).
Defined.

Lemma tryCatchAsync_rejected_by_handler_witness :
  tryCatchAsync failing_request rethrow 0 = (2, Normal (Rejected "bad"%string)) /\
  exists fault w1,
    (failing_request tt 0 = (w1, Throw fault) \/
     failing_request tt 0 = (w1, Normal (Rejected fault))) /\
    rethrow fault w1 = (2, Throw "bad"%string).
Proof.
  split; [reflexivity |].
  exact (tryCatchAsync_rejected_by_handler failing_request rethrow
           "bad"%string 0 2 eq_refl).
Defined.


Lemma validateMembershipData_accepts_strings_witness :
  (forall s, JsonNull (number := Z) <> JsonString s) /\
  validateMembershipData (World := nat) (JsonNull (number := Z)) 0 =
  (0, Normal (left "Invalid membership data"%string)).
Proof.
  assert (H : forall s, JsonNull (number := Z) <> JsonString s) by discriminate.
  split; [exact H |].
  exact (proj2 (validateMembershipData_accepts_strings (World := nat) JsonNull 0) H).
Defined.

Lemma parse_then_validate_never_throws_witness :
  (fun _ : string => Throw (A := JsonValue Z) (SyntaxError "Unexpected token o"))
    "not json"%string = Throw (SyntaxError "Unexpected token o") /\
  resultMessage (World := nat)
                (fun _ => Throw (A := JsonValue Z) (SyntaxError "Unexpected token o"))
                "not json"%string 0 =
  (0, Normal "Error: Invalid JSON: Unexpected token o"%string).
Proof.
  split; [reflexivity |].
  exact (proj2 (proj1 (parse_then_validate_never_throws (World := nat)
                         (fun _ => Throw (A := JsonValue Z) (SyntaxError "Unexpected token o"))
                         "not json"%string 0)
                  (SyntaxError "Unexpected token o") eq_refl)).
Defined.
